(** * SnowflakeList (discord/utils.py): a sorted array of unsigned 64-bit ids

    The class subclasses [array.array] with type code "Q" and adds three
    methods, [add], [get] and [has], all built on [bisect.bisect_left].
    The embedding below follows the Python text line by line: Python
    exceptions are the [Raise] outcomes of an error monad, the array is a
    [list Z] whose items the array type keeps between 0 and 2^64 - 1, and the
    in-place mutation of [add] is explicit state passing (the method returns
    the new contents of [self]).

    The second part embeds other helpers of the module: [find], [get],
    [_unique], [as_chunks], [valid_icon_size], [_get_mime_type_for_image],
    [filter_params] and the integer arithmetic of the snowflake and time
    conversions. *)

From Stdlib Require Import ZArith Lia.
From Stdlib.Strings Require Import Ascii Byte.
From stdpp Require Import base list sorting strings gmap.
From Equations Require Import Equations.

Local Open Scope Z_scope.

(** ** Exceptions and the error monad *)

Inductive exception : Type :=
| IndexError
| OverflowError.

Inductive result (A : Type) : Type :=
| Ok (a : A)
| Raise (e : exception).
Arguments Ok {A} a.
Arguments Raise {A} e.

(** Sequencing propagates the first exception, as Python does; the
    instances give the [x ← m; k] notation. *)
#[global] Instance result_ret : MRet result := fun _ a => Ok a.

#[global] Instance result_bind : MBind result := fun _ _ k m =>
  match m with
  | Ok a => k a
  | Raise e => Raise e
  end.

(** ** The array of type code "Q" *)

(** Values an [unsigned long long] item can hold. *)
Definition Q_MAX : Z := 2 ^ 64 - 1.

Definition is_Q (v : Z) : bool := (0 <=? v) && (v <=? Q_MAX).

Definition u64 (v : Z) : Prop := 0 <= v <= Q_MAX.

Module Array.

(** [array.array.__new__(cls, "Q", initializer)]: every item of the
    initializer is converted to an unsigned 64-bit item; an integer outside
    the range makes the conversion raise [OverflowError]. *)
Definition new (initializer : list Z) : result (list Z) :=
  if forallb is_Q initializer then Ok initializer else Raise OverflowError.

(** [self[i]] for a non-negative index: [IndexError] past the end. *)
Definition getitem (self : list Z) (i : nat) : result Z :=
  match self !! i with
  | Some y => Ok y
  | None => Raise IndexError
  end.

(** [self.insert(i, x)] for a non-negative index: the item is converted
    first ([OverflowError] outside the range), then placed before position
    [i]; an index past the end appends. *)
Definition insert (self : list Z) (i : nat) (x : Z) : result (list Z) :=
  if is_Q x then Ok (take i self ++ x :: drop i self) else Raise OverflowError.

(** [x in self], inherited from [array.array]: a left-to-right scan
    comparing each item with [==]. *)
Definition contains (self : list Z) (x : Z) : bool :=
  existsb (fun y => y =? x) self.

End Array.

(** ** [bisect.bisect_left] *)

(** The loop of [bisect_left]:
<<
    while lo < hi:
        mid = (lo + hi) // 2
        if a[mid] < x: lo = mid + 1
        else: hi = mid
    return lo
>>
    The distance [hi - lo] shrinks at every iteration. *)
Equations? bisect_loop (a : list Z) (x : Z) (lo hi : nat) : result nat
  by wf (hi - lo)%nat lt :=
  bisect_loop a x lo hi with lt_dec lo hi := {
    | right _ => Ok lo
    | left _ with Array.getitem a ((lo + hi) / 2)%nat := {
        | Raise e => Raise e
        | Ok y with (y <? x) := {
            | true => bisect_loop a x ((lo + hi) / 2 + 1)%nat hi
            | false => bisect_loop a x lo ((lo + hi) / 2)%nat } } }.
Proof.
  all: change (Nat.divmod (lo + hi) 1 0 1).1 with ((lo + hi) / 2)%nat;
    pose proof (Nat.div_mod_eq (lo + hi) 2) as Hd;
    pose proof (Nat.mod_upper_bound (lo + hi) 2) as Hm; lia.
Qed.

(** [bisect_left(a, x)] with the default bounds [lo=0], [hi=len(a)] (the
    [ValueError] of a negative [lo] cannot occur). *)
Definition bisect_left (a : list Z) (x : Z) : result nat :=
  bisect_loop a x 0 (length a).

(** ** Python's builtin [sorted] *)

(** [sorted(data)] returns a new ascending list holding the items of
    [data].  On integers the ascending rearrangement of a list is unique
    (lemma [sorted_unique] below), so the merge sort used here computes
    the same list as the interpreter's own merge sort. *)
Definition sorted (data : list Z) : list Z := merge_sort Z.le data.

(** ** The class *)

Module SnowflakeList.

(** [__new__(cls, data, *, is_sorted=False)]:
    [array.array.__new__(cls, "Q", data if is_sorted else sorted(data))]. *)
Definition new (data : list Z) (is_sorted : bool) : result (list Z) :=
  Array.new (if is_sorted then data else sorted data).

(** [add(self, element)]: the result is the content of [self] after the
    in-place insertion. *)
Definition add (self : list Z) (element : Z) : result (list Z) :=
  i ← bisect_left self element;
  Array.insert self i element.

(** [get(self, element)]:
    [self[i] if i != len(self) and self[i] == element else None]. *)
Definition get (self : list Z) (element : Z) : result (option Z) :=
  i ← bisect_left self element;
  found ← (if negb (i =? length self)%nat
           then y ← Array.getitem self i; mret (y =? element)
           else mret false);
  if found : bool then y ← Array.getitem self i; mret (Some y) else mret None.

(** [has(self, element)]: [i != len(self) and self[i] == element]. *)
Definition has (self : list Z) (element : Z) : result bool :=
  i ← bisect_left self element;
  if negb (i =? length self)%nat
  then y ← Array.getitem self i; mret (y =? element)
  else mret false.

End SnowflakeList.

(** The class invariant: items in non-decreasing order. *)
Definition ascending (l : list Z) : Prop := Sorted Z.le l.

(** ** Vocabulary of the statements *)

(** Every item below position [i] is smaller than [x]. *)
Definition below (a : list Z) (x : Z) (i : nat) : Prop :=
  ∀ j y, (j < i)%nat → a !! j = Some y → y < x.

(** Every item from position [i] on is at least [x]. *)
Definition above (a : list Z) (x : Z) (i : nat) : Prop :=
  ∀ j y, (i ≤ j)%nat → a !! j = Some y → x ≤ y.

(** Position [j] is an insertion point of [v] in [s] when placing [v]
    before position [j] keeps the items ascending; the leftmost one is the
    least such position. *)
Definition insertion_point (s : list Z) (v : Z) (j : nat) : Prop :=
  (j ≤ length s)%nat ∧ ascending (take j s ++ v :: drop j s).

Definition leftmost_insertion_point (s : list Z) (v : Z) (i : nat) : Prop :=
  insertion_point s v i ∧ ∀ j, insertion_point s v j → (i ≤ j)%nat.

(** ** The other helpers of the module *)

(** Exceptions raised by the helpers below, and their error monad. *)
Inductive utils_exception : Type :=
| ValueError
| InvalidArgument
| AttributeError.

Inductive outcome (A : Type) : Type :=
| Return (a : A)
| Throw (e : utils_exception).
Arguments Return {A} a.
Arguments Throw {A} e.

#[global] Instance outcome_ret : MRet outcome := fun _ a => Return a.

#[global] Instance outcome_bind : MBind outcome := fun _ _ k m =>
  match m with
  | Return a => k a
  | Throw e => Throw e
  end.

#[global] Instance byte_eq_decision : EqDecision byte := byte_eq_dec.

Definition DISCORD_EPOCH : Z := 1420070400000.

Module Utils.

(** *** Snowflakes and time

    [snowflake_time] and [time_snowflake] go through floating-point
    timestamps; the integer arithmetic on either side of the conversion is
    embedded, with the millisecond count as the interface. *)

(** [snowflake_time]: [(id >> 22) + DISCORD_EPOCH], the numerator of
    [timestamp], in milliseconds since the Unix epoch. *)
Definition snowflake_millis (id : Z) : Z := Z.shiftr id 22 + DISCORD_EPOCH.

(** [time_snowflake], from the local [discord_millis] on:
    [(discord_millis << 22) + (2**22 - 1 if high else 0)]. *)
Definition time_snowflake (discord_millis : Z) (high : bool) : Z :=
  Z.shiftl discord_millis 22 + (if high then 2 ^ 22 - 1 else 0).

(** [generate_snowflake], from the millisecond count on:
    [int(...) << 22 | 0x3FFFFF]. *)
Definition generate_snowflake (discord_millis : Z) : Z :=
  Z.lor (Z.shiftl discord_millis 22) 4194303.

(** *** [find] and [get] *)

Section search.
Context {T V : Type}.

(** [find(predicate, seq)]; the predicate's result is taken by its
    truth value. *)
Fixpoint find (predicate : T → bool) (seq : list T) : option T :=
  match seq with
  | [] => None
  | element :: seq => if predicate element then Some element
                      else find predicate seq
  end.

(** [operator.attrgetter(name)(elem)], [AttributeError] when [elem] has no
    such (dotted) attribute, and [==] on attribute values. *)
Variable attrgetter : string → T → outcome V.
Variable py_eq : V → V → bool.

(** [k.replace("__", ".")]: left to right, without overlap. *)
Fixpoint replace_dunder (k : string) : string :=
  match k with
  | String "_"%char (String "_"%char rest) =>
      String "."%char (replace_dunder rest)
  | String c rest => String c (replace_dunder rest)
  | EmptyString => EmptyString
  end.

Definition attrget (k : string) : T → outcome V :=
  attrgetter (replace_dunder k).

(** The loop of the single-attribute case. *)
Fixpoint get_one (pred : T → outcome V) (v : V) (iterable : list T)
  : outcome (option T) :=
  match iterable with
  | [] => mret None
  | elem :: iterable =>
      x ← pred elem;
      if py_eq x v then mret (Some elem) else get_one pred v iterable
  end.

(** [all(pred(elem) == value for pred, value in converted)]: stops at
    the first attribute that differs. *)
Fixpoint all_equal (converted : list ((T → outcome V) * V)) (elem : T)
  : outcome bool :=
  match converted with
  | [] => mret true
  | (pred, value) :: converted =>
      x ← pred elem;
      if py_eq x value then all_equal converted elem else mret false
  end.

(** The loop of the general case. *)
Fixpoint get_all (converted : list ((T → outcome V) * V)) (iterable : list T)
  : outcome (option T) :=
  match iterable with
  | [] => mret None
  | elem :: iterable =>
      b ← all_equal converted elem;
      if b : bool then mret (Some elem) else get_all converted iterable
  end.

(** [get(iterable, **attrs)], the keyword arguments in call order. *)
Definition get (iterable : list T) (attrs : list (string * V))
  : outcome (option T) :=
  match attrs with
  | [(k, v)] => get_one (attrget k) v iterable
  | _ => get_all (map (λ '(attr, value), (attrget attr, value)) attrs)
                 iterable
  end.
(** [elem] has all the attributes with the values asked for. *)
Definition has_attrs (attrs : list (string * V)) (elem : T) : bool :=
  forallb (λ '(k, v),
    match attrget k elem with
    | Return x => py_eq x v
    | Throw _ => false
    end) attrs.

End search.

(** *** [_unique] *)

Section unique.
Context {K : Type} `{EqDecision K}.

(** [d[k] = v] on a dict, kept as the list of its items in insertion
    order: an existing key keeps its place. *)
Fixpoint dict_setitem {V : Type} (d : list (K * V)) (k : K) (v : V)
  : list (K * V) :=
  match d with
  | [] => [(k, v)]
  | (k', v') :: d => if decide (k' = k) then (k', v) :: d
                     else (k', v') :: dict_setitem d k v
  end.

(** [dict.fromkeys(iterable)]: every key set to [None] in turn. *)
Definition dict_fromkeys (iterable : list K) : list (K * unit) :=
  foldl (λ d k, dict_setitem d k tt) [] iterable.

(** [_unique(iterable)]: [[x for x in dict.fromkeys(iterable)]]. *)
Definition _unique (iterable : list K) : list K :=
  map fst (dict_fromkeys iterable).
End unique.

(** *** [valid_icon_size] *)

(** [not size & (size - 1) and 4096 >= size >= 16]. *)
Definition valid_icon_size (size : Z) : bool :=
  negb (negb (Z.land size (size - 1) =? 0)) &&
  ((size <=? 4096) && (16 <=? size)).

(** The sizes the docstring names: the powers of two within 16 and
    4096. *)
Definition icon_sizes : list Z :=
  [16; 32; 64; 128; 256; 512; 1024; 2048; 4096].

(** *** [_get_mime_type_for_image] *)

(** [data.startswith(prefix)] and [data[i:j]] for [0 <= i <= j]. *)
Definition startswith (data prefix : list byte) : bool :=
  bool_decide (take (length prefix) data = prefix).

Definition slice (data : list byte) (i j : nat) : list byte :=
  take (j - i) (drop i data).

Definition PNG : list byte := [x89; x50; x4e; x47; x0d; x0a; x1a; x0a].
Definition JPEG : list byte := [xff; xd8; xff].
Definition JFIF : list byte := [x4a; x46; x49; x46].
Definition Exif : list byte := [x45; x78; x69; x66].
Definition GIF87a : list byte := [x47; x49; x46; x38; x37; x61].
Definition GIF89a : list byte := [x47; x49; x46; x38; x39; x61].
Definition RIFF : list byte := [x52; x49; x46; x46].
Definition WEBP : list byte := [x57; x45; x42; x50].

Definition _get_mime_type_for_image (data : list byte) : outcome string :=
  if startswith data PNG then Return "image/png"
  else if bool_decide (slice data 0 3 = JPEG)
          || (bool_decide (slice data 6 10 = JFIF)
              || bool_decide (slice data 6 10 = Exif))
  then Return "image/jpeg"
  else if startswith data GIF87a || startswith data GIF89a
  then Return "image/gif"
  else if startswith data RIFF && bool_decide (slice data 8 12 = WEBP)
  then Return "image/webp"
  else Throw InvalidArgument.

(** *** [as_chunks] *)

Section chunks.
Context {T : Type}.

(** The loop of [_chunk], with the chunk [ret] under construction and
    its counter [n]; the result lists the chunks in the order they are
    yielded. *)
Fixpoint chunk_loop (iterator : list T) (max_size : Z) (ret : list T) (n : Z)
  : list (list T) :=
  match iterator with
  | [] => match ret with [] => [] | _ => [ret] end
  | item :: iterator =>
      let ret := ret ++ [item] in
      let n := n + 1 in
      if n =? max_size then ret :: chunk_loop iterator max_size [] 0
      else chunk_loop iterator max_size ret n
  end.

Definition _chunk (iterator : list T) (max_size : Z) : list (list T) :=
  chunk_loop iterator max_size [] 0.

(** [as_chunks(iterator, max_size)] on a synchronous iterator. *)
Definition as_chunks (iterator : list T) (max_size : Z)
  : outcome (list (list T)) :=
  if max_size <=? 0 then Throw ValueError
  else Return (_chunk iterator max_size).
End chunks.

(** *** [filter_params] *)

Section filter_params.
Context {V : Type}.

(** One turn of the loop over [kwargs.items()]. *)
Definition filter_param (params : gmap string V)
    (kw : string * option string) : gmap string V :=
  let '(old_param, new_param) := kw in
  match params !! old_param with
  | None => params
  | Some v =>
      match new_param with
      | None => delete old_param params
      | Some new_param => <[new_param := v]> (delete old_param params)
      end
  end.

(** [filter_params(params, **kwargs)]: the dict it mutates and
    returns. *)
Definition filter_params (params : gmap string V)
    (kwargs : list (string * option string)) : gmap string V :=
  foldl filter_param params kwargs.
End filter_params.

End Utils.

(** Elements with two attributes, [id] and [guild.id], for the examples
    of [get]. *)
Definition example_attrgetter (name : string) (elem : Z * Z) : outcome Z :=
  if decide (name = "id") then Return elem.1
  else if decide (name = "guild.id") then Return elem.2
  else Throw AttributeError.

(** The elements of a container built by adding the items of [data] one
    after the other. *)
Fixpoint add_each (self : list Z) (data : list Z) : result (list Z) :=
  match data with
  | [] => Ok self
  | element :: data => self ← SnowflakeList.add self element; add_each self data
  end.

(** ** Tactics for concrete containers *)

Ltac solve_u64 := unfold u64, Q_MAX; lia.
Ltac solve_all_u64 := repeat (apply Forall_cons_2; [solve_u64|]); apply Forall_nil_2.
Ltac solve_ascending :=
  unfold ascending;
  repeat first [apply Sorted_nil | apply Sorted_cons
               | apply HdRel_nil | apply HdRel_cons | lia].

(** ** The embedding on an example

    Construct from [5, 1, 3], add 3, then query. *)
Example bisect_left_ex1 : bisect_left [1; 3; 3; 5] 3 = Ok 1%nat.
Proof. reflexivity. Qed.

Example new_ex : SnowflakeList.new [5; 1; 3] false = Ok [1; 3; 5].
Proof. reflexivity. Qed.

Example add_ex : SnowflakeList.add [1; 3; 5] 3 = Ok [1; 3; 3; 5].
Proof. reflexivity. Qed.

Example has_ex : SnowflakeList.has [1; 3; 3; 5] 3 = Ok true.
Proof. reflexivity. Qed.

Example get_ex4 : SnowflakeList.get [1; 3; 3; 5] 4 = Ok None.
Proof. reflexivity. Qed.

Example get_ex5 : SnowflakeList.get [1; 3; 3; 5] 5 = Ok (Some 5).
Proof. reflexivity. Qed.

Example add_overflow : SnowflakeList.add [1; 3; 5] (2 ^ 64) = Raise OverflowError.
Proof. reflexivity. Qed.

Example new_negative : SnowflakeList.new [5; -1] false = Raise OverflowError.
Proof. reflexivity. Qed.

(** With [is_sorted=True] the input is stored as given, and the search
    then misses a stored value that the linear scan of [in] finds. *)
Example new_unsorted_has :
  SnowflakeList.new [3; 1] true = Ok [3; 1] ∧
  SnowflakeList.has [3; 1] 1 = Ok false ∧
  Array.contains [3; 1] 1 = true.
Proof. repeat split; reflexivity. Qed.

(** ** The binary search *)

Lemma half_bounds (lo hi : nat) :
  (lo < hi)%nat → (lo ≤ (lo + hi) / 2)%nat ∧ ((lo + hi) / 2 < hi)%nat.
Proof.
  intros Hlt.
  pose proof (Nat.div_mod_eq (lo + hi) 2) as Hd.
  pose proof (Nat.mod_upper_bound (lo + hi) 2) as Hm. lia.
Qed.

Lemma ascending_strongly (l : list Z) : ascending l → StronglySorted Z.le l.
Proof. intros Hs. apply Sorted_StronglySorted; [apply _|exact Hs]. Qed.

Lemma ascending_lookup_le (l : list Z) (j k : nat) (y z : Z) :
  ascending l → (j ≤ k)%nat → l !! j = Some y → l !! k = Some z → y ≤ z.
Proof.
  intros Hs%ascending_strongly Hjk Hj Hk.
  destruct (decide (j = k)) as [->|Hne]; [rewrite Hj in Hk; injection Hk as ->; lia|].
  rewrite <- (take_drop k l) in Hs.
  eapply StronglySorted_app_1_elem_of; [exact Hs| |].
  - apply elem_of_take. exists j. split; [done|lia].
  - apply list_elem_of_lookup. exists 0%nat.
    rewrite lookup_drop, Nat.add_0_r. done.
Qed.

(** One iteration of the loop, as an equation. *)
Lemma bisect_loop_step (a : list Z) (x : Z) (lo hi : nat) :
  bisect_loop a x lo hi =
  if lt_dec lo hi
  then y ← Array.getitem a ((lo + hi) / 2)%nat;
       if y <? x then bisect_loop a x ((lo + hi) / 2 + 1)%nat hi
       else bisect_loop a x lo ((lo + hi) / 2)%nat
  else Ok lo.
Proof.
  rewrite bisect_loop_equation_1.
  destruct (lt_dec lo hi) as [Hlt|Hge]; cbn [bisect_loop_unfold_clause_1];
    [|reflexivity].
  destruct (Array.getitem a ((lo + hi) / 2)%nat) as [y|e]; [|reflexivity].
  cbn [bisect_loop_unfold_clause_1_clause_2 mbind result_bind].
  destruct (y <? x); reflexivity.
Qed.

(** Inside the bounds the index [mid] always names an item. *)
Lemma getitem_mid (a : list Z) (lo hi : nat) :
  (lo < hi)%nat → (hi ≤ length a)%nat →
  ∃ y, a !! ((lo + hi) / 2)%nat = Some y ∧
       Array.getitem a ((lo + hi) / 2)%nat = Ok y.
Proof.
  intros Hlt Hlen. destruct (half_bounds lo hi Hlt) as [_ Hm].
  destruct (lookup_lt_is_Some_2 a ((lo + hi) / 2)%nat) as [y Hy]; [lia|].
  exists y. unfold Array.getitem. by rewrite Hy.
Qed.

(** The loop returns a position between its bounds and never indexes
    outside of the array. *)
Lemma bisect_loop_bounds (a : list Z) (x : Z) (n lo hi : nat) :
  (hi - lo ≤ n)%nat → (lo ≤ hi)%nat → (hi ≤ length a)%nat →
  ∃ i, bisect_loop a x lo hi = Ok i ∧ (lo ≤ i)%nat ∧ (i ≤ hi)%nat.
Proof.
  revert lo hi. induction n as [|n IH]; intros lo hi Hn Hle Hlen;
    rewrite bisect_loop_step; destruct (lt_dec lo hi) as [Hlt|Hge];
    try lia; try (exists lo; split; [done|lia]).
  destruct (half_bounds lo hi Hlt) as [Hm1 Hm2].
  destruct (getitem_mid a lo hi Hlt Hlen) as (y & _ & ->).
  cbn [mbind result_bind]. destruct (y <? x).
  - destruct (IH ((lo + hi) / 2 + 1)%nat hi) as (i & Hi & ? & ?); [lia..|].
    exists i. split; [done|lia].
  - destruct (IH lo ((lo + hi) / 2)%nat) as (i & Hi & ? & ?); [lia..|].
    exists i. split; [done|lia].
Qed.

(** On an ascending array the loop keeps "smaller than [x]" to the left
    of [lo] and "at least [x]" from [hi] on. *)
Lemma bisect_loop_partition (a : list Z) (x : Z) (n lo hi i : nat) :
  ascending a →
  (hi - lo ≤ n)%nat → (lo ≤ hi)%nat → (hi ≤ length a)%nat →
  below a x lo → above a x hi →
  bisect_loop a x lo hi = Ok i →
  below a x i ∧ above a x i.
Proof.
  intros Hs. revert lo hi.
  induction n as [|n IH]; intros lo hi Hn Hle Hlen Hb Ha;
    rewrite bisect_loop_step; destruct (lt_dec lo hi) as [Hlt|Hge];
    try lia;
    try (intros [= <-]; assert (lo = hi) as -> by lia; by split).
  destruct (half_bounds lo hi Hlt) as [Hm1 Hm2].
  destruct (getitem_mid a lo hi Hlt Hlen) as (y & Hy & ->).
  cbn [mbind result_bind]. destruct (Z.ltb_spec y x) as [Hyx|Hyx].
  - apply IH; [lia..| |done].
    intros j z Hj Hz.
    assert (z ≤ y); [|lia].
    apply (ascending_lookup_le a j ((lo + hi) / 2)%nat); [done|lia|done..].
  - apply IH; [lia..|done|].
    intros j z Hj Hz.
    assert (y ≤ z); [|lia].
    apply (ascending_lookup_le a ((lo + hi) / 2)%nat j); [done|lia|done..].
Qed.

Lemma bisect_left_bounds (a : list Z) (x : Z) :
  ∃ i, bisect_left a x = Ok i ∧ (i ≤ length a)%nat.
Proof.
  destruct (bisect_loop_bounds a x (length a) 0 (length a))
    as (i & Hi & _ & Hle); [lia..|].
  by exists i.
Qed.

Lemma bisect_left_partition (a : list Z) (x : Z) (i : nat) :
  ascending a → bisect_left a x = Ok i → below a x i ∧ above a x i.
Proof.
  intros Hs Hi.
  apply (bisect_loop_partition a x (length a) 0 (length a)); try done; try lia.
  - intros j y Hj. lia.
  - intros j y Hj Hy. apply lookup_lt_Some in Hy. lia.
Qed.

(** A position that splits an ascending array into "smaller" and "at
    least" is the one the search returns. *)
Lemma bisect_left_unique (a : list Z) (x : Z) (i : nat) :
  ascending a → (i ≤ length a)%nat → below a x i → above a x i →
  bisect_left a x = Ok i.
Proof.
  intros Hs Hlen Hb Ha.
  destruct (bisect_left_bounds a x) as (k & Hk & Hklen).
  destruct (bisect_left_partition a x k Hs Hk) as [Hb' Ha'].
  rewrite Hk. f_equal.
  destruct (Nat.lt_trichotomy k i) as [Hlt|[->|Hgt]]; [|done|].
  - destruct (lookup_lt_is_Some_2 a k) as [y Hy]; [lia|].
    pose proof (Hb k y Hlt Hy). pose proof (Ha' k y (Nat.le_refl _) Hy). lia.
  - destruct (lookup_lt_is_Some_2 a i) as [y Hy]; [lia|].
    pose proof (Hb' i y Hgt Hy). pose proof (Ha i y (Nat.le_refl _) Hy). lia.
Qed.

(** A value stored in an ascending array sits at the position the search
    returns. *)
Lemma bisect_left_found (a : list Z) (x : Z) (i : nat) :
  ascending a → x ∈ a → bisect_left a x = Ok i → a !! i = Some x.
Proof.
  intros Hs [k Hk]%list_elem_of_lookup Hi.
  destruct (bisect_left_partition a x i Hs Hi) as [Hb Ha].
  assert (i ≤ k)%nat as Hik.
  { destruct (Nat.le_gt_cases i k) as [|Hlt]; [done|].
    pose proof (Hb k x Hlt Hk). lia. }
  destruct (lookup_lt_is_Some_2 a i) as [y Hy].
  { apply lookup_lt_Some in Hk. lia. }
  pose proof (Ha i y (Nat.le_refl _) Hy).
  pose proof (ascending_lookup_le a i k y x Hs Hik Hy Hk).
  rewrite Hy. f_equal. lia.
Qed.

(** ** The array operations *)

Lemma is_Q_u64 (v : Z) : is_Q v = true ↔ u64 v.
Proof. unfold is_Q, u64. rewrite andb_true_iff, !Z.leb_le. done. Qed.

Lemma forallb_is_Q (l : list Z) : Forall u64 l → forallb is_Q l = true.
Proof.
  induction 1 as [|v l Hv _ IH]; [done|].
  simpl. rewrite IH, andb_true_r. by apply is_Q_u64.
Qed.

Lemma array_new_ok (l : list Z) : Forall u64 l → Array.new l = Ok l.
Proof. intros Hl. unfold Array.new. by rewrite forallb_is_Q. Qed.

Lemma array_insert_ok (l : list Z) (i : nat) (v : Z) :
  u64 v → Array.insert l i v = Ok (take i l ++ v :: drop i l).
Proof.
  intros Hv%is_Q_u64. unfold Array.insert. by rewrite Hv.
Qed.

Lemma array_contains_elem_of (l : list Z) (v : Z) :
  Array.contains l v = true ↔ v ∈ l.
Proof.
  unfold Array.contains. rewrite existsb_exists. split.
  - intros (y & Hy & ->%Z.eqb_eq). by apply list_elem_of_In.
  - intros Hv. exists v. split; [by apply list_elem_of_In|apply Z.eqb_refl].
Qed.

(** ** [sorted] *)

Lemma sorted_ascending (data : list Z) : ascending (sorted data).
Proof. apply (Sorted_merge_sort Z.le). Qed.

Lemma sorted_Permutation (data : list Z) : sorted data ≡ₚ data.
Proof. apply merge_sort_Permutation. Qed.

(** The ascending rearrangement of a list of integers is unique: any
    sorting procedure returns [sorted data]. *)
Lemma sorted_unique (data l : list Z) :
  ascending l → l ≡ₚ data → l = sorted data.
Proof.
  intros Hl Hp. apply (Sorted_unique Z.le); [done|apply sorted_ascending|].
  by rewrite sorted_Permutation.
Qed.

(** ** The insertion of [add] *)

Lemma add_unfold (l : list Z) (v : Z) :
  u64 v →
  ∃ i, bisect_left l v = Ok i ∧ (i ≤ length l)%nat ∧
       SnowflakeList.add l v = Ok (take i l ++ v :: drop i l).
Proof.
  intros Hv. destruct (bisect_left_bounds l v) as (i & Hi & Hlen).
  exists i. split; [done|]. split; [done|].
  unfold SnowflakeList.add. rewrite Hi. cbn [mbind result_bind].
  by apply array_insert_ok.
Qed.

Lemma insert_ascending (l : list Z) (v : Z) (i : nat) :
  ascending l → below l v i → above l v i →
  ascending (take i l ++ v :: drop i l).
Proof.
  intros Hs%ascending_strongly Hb Ha.
  rewrite <- (take_drop i l) in Hs.
  apply StronglySorted_Sorted, StronglySorted_app_2.
  - intros x1 x2 (j & Hj & Hlt)%elem_of_take Hx2.
    pose proof (Hb j x1 Hlt Hj).
    apply elem_of_cons in Hx2 as [->|(k & Hk)%list_elem_of_lookup]; [lia|].
    rewrite lookup_drop in Hk.
    pose proof (Ha (i + k)%nat x2 ltac:(lia) Hk). lia.
  - by apply StronglySorted_app_1_l in Hs.
  - apply SSorted_cons; [by apply StronglySorted_app_1_r in Hs|].
    apply Forall_lookup. intros k y Hk. rewrite lookup_drop in Hk.
    exact (Ha (i + k)%nat y ltac:(lia) Hk).
Qed.

Lemma lookup_inserted (l : list Z) (v : Z) (i : nat) :
  (i ≤ length l)%nat → (take i l ++ v :: drop i l) !! i = Some v.
Proof.
  intros Hlen. rewrite lookup_app_r; rewrite length_take_le by lia; [|lia].
  by rewrite Nat.sub_diag.
Qed.

Lemma length_inserted (l : list Z) (v : Z) (i : nat) :
  length (take i l ++ v :: drop i l) = S (length l).
Proof.
  rewrite length_app. simpl. rewrite length_take, length_drop. lia.
Qed.

(** The two guarded method bodies, once the search has returned [i]. *)
Lemma has_unfold (l : list Z) (x : Z) (i : nat) :
  bisect_left l x = Ok i → (i ≤ length l)%nat →
  SnowflakeList.has l x = Ok (bool_decide (l !! i = Some x)).
Proof.
  intros Hi Hlen. unfold SnowflakeList.has. rewrite Hi.
  cbn [mbind result_bind].
  destruct (Nat.eqb_spec i (length l)) as [->|Hne]; cbn [negb].
  - rewrite lookup_ge_None_2 by lia. done.
  - unfold Array.getitem.
    destruct (lookup_lt_is_Some_2 l i) as [y Hy]; [lia|].
    rewrite Hy. cbn [mbind result_bind mret result_ret]. f_equal.
    destruct (Z.eqb_spec y x) as [->|Hyx].
    + by rewrite bool_decide_eq_true_2.
    + rewrite bool_decide_eq_false_2; [done|congruence].
Qed.

Lemma get_unfold (l : list Z) (x : Z) (i : nat) :
  bisect_left l x = Ok i → (i ≤ length l)%nat →
  SnowflakeList.get l x =
  Ok (if bool_decide (l !! i = Some x) then Some x else None).
Proof.
  intros Hi Hlen. unfold SnowflakeList.get. rewrite Hi.
  cbn [mbind result_bind].
  destruct (Nat.eqb_spec i (length l)) as [->|Hne]; cbn [negb].
  - rewrite lookup_ge_None_2 by lia. done.
  - unfold Array.getitem.
    destruct (lookup_lt_is_Some_2 l i) as [y Hy]; [lia|].
    rewrite Hy. cbn [mbind result_bind mret result_ret].
    destruct (Z.eqb_spec y x) as [->|Hyx].
    + rewrite bool_decide_eq_true_2 by done.
      cbn [mbind result_bind mret result_ret]. done.
    + rewrite bool_decide_eq_false_2; [done|congruence].
Qed.

(** ** The claims *)

(** C1, as stated: the container built with [is_sorted=False] has
    pairwise distinct items whatever the input.  It fails on the input
    [1, 1], a list of unsigned 64-bit integers: the constructor sorts and
    stores both occurrences. *)
Lemma C1_new_keeps_duplicates :
  Forall u64 [1; 1] ∧
  SnowflakeList.new [1; 1] false = Ok [1; 1] ∧
  ¬ NoDup [1; 1].
Proof.
  split; [solve_all_u64|]. split; [reflexivity|].
  intros [Hn _]%NoDup_cons. apply Hn, list_elem_of_here.
Qed.

(** C1, amended: the container built with [is_sorted=False] from unsigned
    64-bit integers has pairwise distinct items exactly when the input
    has no repeated value. *)
Theorem C1_new_NoDup (data : list Z) :
  Forall u64 data →
  ∃ l, SnowflakeList.new data false = Ok l ∧ (NoDup l ↔ NoDup data).
Proof.
  intros Hd. exists (sorted data). split.
  - apply array_new_ok. by rewrite sorted_Permutation.
  - by rewrite sorted_Permutation.
Qed.

(** C2: [add] keeps an ascending container ascending. *)
Theorem C2_add_ascending (l : list Z) (v : Z) :
  ascending l → u64 v →
  ∃ l', SnowflakeList.add l v = Ok l' ∧ ascending l'.
Proof.
  intros Hs Hv. destruct (add_unfold l v Hv) as (i & Hi & Hlen & Hadd).
  destruct (bisect_left_partition l v i Hs Hi) as [Hb Ha].
  eexists. split; [exact Hadd|]. by apply insert_ascending.
Qed.

(** C3: on an ascending container [has(x)] answers [True] right after
    [add(x)]. *)
Theorem C3_has_after_add (l : list Z) (x : Z) :
  ascending l → u64 x →
  ∃ l', SnowflakeList.add l x = Ok l' ∧ SnowflakeList.has l' x = Ok true.
Proof.
  intros Hs Hx. destruct (add_unfold l x Hx) as (i & Hi & Hlen & Hadd).
  destruct (bisect_left_partition l x i Hs Hi) as [Hb Ha].
  eexists. split; [exact Hadd|].
  set (l' := take i l ++ x :: drop i l).
  assert (ascending l') as Hs' by by apply insert_ascending.
  assert (l' !! i = Some x) as Hxi by by apply lookup_inserted.
  assert (x ∈ l') as Hin by (apply list_elem_of_lookup; eauto).
  destruct (bisect_left_bounds l' x) as (k & Hk & Hklen).
  rewrite (has_unfold l' x k Hk Hklen).
  by rewrite bool_decide_eq_true_2 by by apply bisect_left_found.
Qed.

(** C4: on an ascending container [get(x)] returns [x] when [has(x)] is
    [True] and [None], without raising, when [has(x)] is [False]. *)
Theorem C4_get_has (l : list Z) (x : Z) :
  ascending l → u64 x →
  ∃ b, SnowflakeList.has l x = Ok b ∧
       SnowflakeList.get l x = Ok (if b then Some x else None).
Proof.
  intros _ _. destruct (bisect_left_bounds l x) as (i & Hi & Hlen).
  exists (bool_decide (l !! i = Some x)).
  split; [by apply has_unfold|by apply get_unfold].
Qed.

(** C5: adding a value already stored in an ascending container makes it
    one item longer and leaves two neighbouring items equal to it. *)
Theorem C5_add_present (l : list Z) (v : Z) :
  ascending l → u64 v → v ∈ l →
  ∃ l' i, SnowflakeList.add l v = Ok l' ∧
          length l' = S (length l) ∧
          l' !! i = Some v ∧ l' !! S i = Some v.
Proof.
  intros Hs Hv Hin. destruct (add_unfold l v Hv) as (i & Hi & Hlen & Hadd).
  pose proof (bisect_left_found l v i Hs Hin Hi) as Hfound.
  eexists; exists i. split; [exact Hadd|].
  split; [apply length_inserted|]. split; [by apply lookup_inserted|].
  rewrite lookup_app_r; rewrite length_take_le by lia; [|lia].
  replace (S i - i)%nat with 1%nat by lia. simpl.
  by rewrite lookup_drop, Nat.add_0_r.
Qed.

(** C6: the constructor with [is_sorted=False] stores the input values in
    ascending order, each as often as the input has it. *)
Theorem C6_new_sorts (data : list Z) :
  Forall u64 data →
  ∃ l, SnowflakeList.new data false = Ok l ∧ ascending l ∧ l ≡ₚ data.
Proof.
  intros Hd. exists (sorted data). split; [|split].
  - apply array_new_ok. by rewrite sorted_Permutation.
  - apply sorted_ascending.
  - apply sorted_Permutation.
Qed.

(** C7: the constructor with [is_sorted=True] stores an ascending input
    unchanged, item for item. *)
Theorem C7_new_presorted (data : list Z) :
  Forall u64 data → ascending data →
  SnowflakeList.new data true = Ok data.
Proof. intros Hd _. by apply array_new_ok. Qed.

(** C8: [add], [get] and [has] raise nothing on an unsigned 64-bit
    argument, whatever the content of the container; the position [i]
    found by the search is at most [len(self)], and [self[i]] is in
    bounds whenever [i != len(self)]. *)
Theorem C8_methods_total (l : list Z) (v : Z) :
  u64 v →
  (∃ l', SnowflakeList.add l v = Ok l') ∧
  (∃ r, SnowflakeList.get l v = Ok r) ∧
  (∃ b, SnowflakeList.has l v = Ok b) ∧
  (∃ i, bisect_left l v = Ok i ∧ (i ≤ length l)%nat ∧
        (i ≠ length l → ∃ y, Array.getitem l i = Ok y)).
Proof.
  intros Hv. destruct (add_unfold l v Hv) as (i & Hi & Hlen & Hadd).
  split; [eauto|]. split; [|split].
  - rewrite (get_unfold l v i Hi Hlen). eauto.
  - rewrite (has_unfold l v i Hi Hlen). eauto.
  - exists i. split; [done|]. split; [done|]. intros Hne.
    destruct (lookup_lt_is_Some_2 l i) as [y Hy]; [lia|].
    exists y. unfold Array.getitem. by rewrite Hy.
Qed.

(** C9: on an ascending container the inherited membership test
    [v in self] and [has(v)] give the same answer. *)
Theorem C9_contains_has (l : list Z) (v : Z) :
  ascending l → u64 v →
  SnowflakeList.has l v = Ok (Array.contains l v).
Proof.
  intros Hs _. destruct (bisect_left_bounds l v) as (i & Hi & Hlen).
  rewrite (has_unfold l v i Hi Hlen). f_equal.
  destruct (Array.contains l v) eqn:Hc.
  - apply array_contains_elem_of in Hc.
    by rewrite bool_decide_eq_true_2 by by apply bisect_left_found.
  - rewrite bool_decide_eq_false_2; [done|]. intros Hl.
    assert (Array.contains l v = true) as Ht; [|congruence].
    apply array_contains_elem_of, list_elem_of_lookup. eauto.
Qed.

(** C10: [add(v)] only inserts [v].  With [i] the position returned by
    the search, the new content is [s[:i] + [v] + s[i:]]; the old items
    form a subsequence of the new ones, which are the old ones plus one
    occurrence of [v]; and on an ascending [s] the position [i] is the
    leftmost insertion point of [v]. *)
Theorem C10_add_frame (s : list Z) (v : Z) :
  u64 v →
  ∃ i s', bisect_left s v = Ok i ∧
          SnowflakeList.add s v = Ok s' ∧
          s' = take i s ++ [v] ++ drop i s ∧
          s `sublist_of` s' ∧
          s' ≡ₚ v :: s ∧
          (ascending s → leftmost_insertion_point s v i).
Proof.
  intros Hv. destruct (add_unfold s v Hv) as (i & Hi & Hlen & Hadd).
  exists i, (take i s ++ [v] ++ drop i s).
  split; [done|]. split; [done|]. split; [done|]. split; [|split].
  - rewrite <- (take_drop i s) at 1.
    apply sublist_app; [done|]. by apply sublist_cons.
  - simpl. rewrite <- Permutation_middle. by rewrite take_drop.
  - intros Hs. destruct (bisect_left_partition s v i Hs Hi) as [Hb Ha].
    split; [split; [done|by apply insert_ascending]|].
    intros j [Hj Hsj].
    destruct (Nat.le_gt_cases i j) as [|Hlt]; [done|exfalso].
    destruct (lookup_lt_is_Some_2 s j) as [y Hy]; [lia|].
    pose proof (Hb j y Hlt Hy).
    assert (v ≤ y); [|lia].
    apply (ascending_lookup_le _ j (S j) v y Hsj); [lia| |].
    + by apply lookup_inserted.
    + rewrite lookup_app_r; rewrite length_take_le by lia; [|lia].
      replace (S j - j)%nat with 1%nat by lia. simpl.
      by rewrite lookup_drop, Nat.add_0_r.
Qed.

(** ** The theorems at concrete containers

    Each theorem above is applied to a small container; its hypotheses
    are discharged by computation. *)

Lemma C1_new_NoDup_witness :
  Forall u64 [5; 1; 3] ∧
  ∃ l, SnowflakeList.new [5; 1; 3] false = Ok l ∧ (NoDup l ↔ NoDup [5; 1; 3]).
Proof. split; [solve_all_u64|apply (C1_new_NoDup [5; 1; 3]); solve_all_u64]. Defined.

Lemma C2_add_ascending_witness :
  ascending [1; 3; 5] ∧ u64 4 ∧
  ∃ l', SnowflakeList.add [1; 3; 5] 4 = Ok l' ∧ ascending l'.
Proof.
  split; [solve_ascending|]. split; [solve_u64|].
  apply (C2_add_ascending [1; 3; 5] 4); [solve_ascending|solve_u64].
Defined.

Lemma C3_has_after_add_witness :
  ascending [1; 3; 5] ∧ u64 3 ∧
  ∃ l', SnowflakeList.add [1; 3; 5] 3 = Ok l' ∧
        SnowflakeList.has l' 3 = Ok true.
Proof.
  split; [solve_ascending|]. split; [solve_u64|].
  apply (C3_has_after_add [1; 3; 5] 3); [solve_ascending|solve_u64].
Defined.

Lemma C4_get_has_witness :
  ascending [1; 3; 3; 5] ∧ u64 4 ∧
  ∃ b, SnowflakeList.has [1; 3; 3; 5] 4 = Ok b ∧
       SnowflakeList.get [1; 3; 3; 5] 4 = Ok (if b then Some 4 else None).
Proof.
  split; [solve_ascending|]. split; [solve_u64|].
  apply (C4_get_has [1; 3; 3; 5] 4); [solve_ascending|solve_u64].
Defined.

Lemma C5_add_present_witness :
  ascending [1; 3; 5] ∧ u64 3 ∧ 3 ∈ [1; 3; 5] ∧
  ∃ l' i, SnowflakeList.add [1; 3; 5] 3 = Ok l' ∧
          length l' = S (length [1; 3; 5]) ∧
          l' !! i = Some 3 ∧ l' !! S i = Some 3.
Proof.
  assert (3 ∈ [1; 3; 5]) as Hin by (apply list_elem_of_further, list_elem_of_here).
  split; [solve_ascending|]. split; [solve_u64|]. split; [exact Hin|].
  apply (C5_add_present [1; 3; 5] 3); [solve_ascending|solve_u64|exact Hin].
Defined.

Lemma C6_new_sorts_witness :
  Forall u64 [5; 1; 3; 1] ∧
  ∃ l, SnowflakeList.new [5; 1; 3; 1] false = Ok l ∧
       ascending l ∧ l ≡ₚ [5; 1; 3; 1].
Proof. split; [solve_all_u64|apply (C6_new_sorts [5; 1; 3; 1]); solve_all_u64]. Defined.

Lemma C7_new_presorted_witness :
  Forall u64 [1; 3; 3; 5] ∧ ascending [1; 3; 3; 5] ∧
  SnowflakeList.new [1; 3; 3; 5] true = Ok [1; 3; 3; 5].
Proof.
  split; [solve_all_u64|]. split; [solve_ascending|].
  apply (C7_new_presorted [1; 3; 3; 5]); [solve_all_u64|solve_ascending].
Defined.

Lemma C8_methods_total_witness :
  u64 Q_MAX ∧
  (∃ l', SnowflakeList.add [7; 2; 9] Q_MAX = Ok l') ∧
  (∃ r, SnowflakeList.get [7; 2; 9] Q_MAX = Ok r) ∧
  (∃ b, SnowflakeList.has [7; 2; 9] Q_MAX = Ok b) ∧
  (∃ i, bisect_left [7; 2; 9] Q_MAX = Ok i ∧ (i ≤ length [7; 2; 9])%nat ∧
        (i ≠ length [7; 2; 9] → ∃ y, Array.getitem [7; 2; 9] i = Ok y)).
Proof. split; [solve_u64|apply (C8_methods_total [7; 2; 9] Q_MAX); solve_u64]. Defined.

Lemma C9_contains_has_witness :
  ascending [1; 3; 5] ∧ u64 5 ∧
  SnowflakeList.has [1; 3; 5] 5 = Ok (Array.contains [1; 3; 5] 5).
Proof.
  split; [solve_ascending|]. split; [solve_u64|].
  apply (C9_contains_has [1; 3; 5] 5); [solve_ascending|solve_u64].
Defined.

Lemma C10_add_frame_witness :
  u64 3 ∧
  ∃ i s', bisect_left [1; 3; 5] 3 = Ok i ∧
          SnowflakeList.add [1; 3; 5] 3 = Ok s' ∧
          s' = take i [1; 3; 5] ++ [3] ++ drop i [1; 3; 5] ∧
          [1; 3; 5] `sublist_of` s' ∧
          s' ≡ₚ 3 :: [1; 3; 5] ∧
          (ascending [1; 3; 5] → leftmost_insertion_point [1; 3; 5] 3 i).
Proof. split; [solve_u64|apply (C10_add_frame [1; 3; 5] 3); solve_u64]. Defined.

(** ** Further properties of the container *)

Lemma below_Forall (a : list Z) (x : Z) (i : nat) :
  below a x i → Forall (λ y, y < x) (take i a).
Proof.
  intros Hb. apply Forall_lookup. intros j y [Hy Hj]%lookup_take_Some.
  by apply (Hb j).
Qed.

Lemma above_Forall (a : list Z) (x : Z) (i : nat) :
  above a x i → Forall (λ y, ¬ y < x) (drop i a).
Proof.
  intros Ha. apply Forall_lookup. intros j y Hy. rewrite lookup_drop in Hy.
  pose proof (Ha (i + j)%nat y ltac:(lia) Hy). lia.
Qed.

Lemma filter_all {A : Type} (P : A → Prop) `{∀ x, Decision (P x)}
    (l : list A) : Forall P l → filter P l = l.
Proof.
  induction 1 as [|x l Hx _ IH]; [done|].
  rewrite filter_cons_True by done. by rewrite IH.
Qed.

Lemma filter_none {A : Type} (P : A → Prop) `{∀ x, Decision (P x)}
    (l : list A) : Forall (λ x, ¬ P x) l → filter P l = [].
Proof.
  induction 1 as [|x l Hx _ IH]; [done|].
  by rewrite filter_cons_False by done.
Qed.

Lemma has_elem_of (l : list Z) (v : Z) :
  ascending l → SnowflakeList.has l v = Ok (bool_decide (v ∈ l)).
Proof.
  intros Hs. destruct (bisect_left_bounds l v) as (i & Hi & Hlen).
  rewrite (has_unfold l v i Hi Hlen). f_equal.
  destruct (decide (v ∈ l)) as [Hin|Hnin].
  - rewrite (bool_decide_eq_true_2 (v ∈ l)) by done.
    by rewrite bool_decide_eq_true_2 by by apply bisect_left_found.
  - rewrite (bool_decide_eq_false_2 (v ∈ l)) by done.
    rewrite bool_decide_eq_false_2; [done|]. intros Hl.
    apply Hnin, list_elem_of_lookup. eauto.
Qed.

Lemma inserted_Permutation (l : list Z) (v : Z) (i : nat) :
  take i l ++ v :: drop i l ≡ₚ v :: l.
Proof. rewrite <- Permutation_middle. by rewrite take_drop. Qed.

Lemma add_ascending_Permutation (l : list Z) (v : Z) :
  ascending l → u64 v →
  ∃ l', SnowflakeList.add l v = Ok l' ∧ ascending l' ∧ l' ≡ₚ v :: l.
Proof.
  intros Hs Hv. destruct (add_unfold l v Hv) as (i & Hi & Hlen & Hadd).
  destruct (bisect_left_partition l v i Hs Hi) as [Hb Ha].
  eexists. split; [exact Hadd|].
  split; [by apply insert_ascending|apply inserted_Permutation].
Qed.

(** X1: on an ascending container [get(v)] returns [v] exactly when [v]
    is one of the stored items, and [None] otherwise. *)
Theorem X1_get_stored (l : list Z) (v : Z) :
  ascending l →
  SnowflakeList.get l v = Ok (if bool_decide (v ∈ l) then Some v else None).
Proof.
  intros Hs. destruct (bisect_left_bounds l v) as (i & Hi & Hlen).
  rewrite (get_unfold l v i Hi Hlen).
  destruct (decide (v ∈ l)) as [Hin|Hnin].
  - rewrite (bool_decide_eq_true_2 (v ∈ l)) by done.
    by rewrite bool_decide_eq_true_2 by by apply bisect_left_found.
  - rewrite (bool_decide_eq_false_2 (v ∈ l)) by done.
    rewrite bool_decide_eq_false_2; [done|]. intros Hl.
    apply Hnin, list_elem_of_lookup. eauto.
Qed.

(** X2: [add(v)] changes the answer of [has] for [v] only: after it,
    [has(w)] is what it was before, or [True] when [w == v]. *)
Theorem X2_has_after_add_other (l : list Z) (v w : Z) :
  ascending l → u64 v →
  ∃ l' b, SnowflakeList.add l v = Ok l' ∧
          SnowflakeList.has l w = Ok b ∧
          SnowflakeList.has l' w = Ok (b || (w =? v)).
Proof.
  intros Hs Hv.
  destruct (add_ascending_Permutation l v Hs Hv) as (l' & Hadd & Hs' & Hp).
  exists l', (bool_decide (w ∈ l)). split; [done|].
  split; [by apply has_elem_of|]. rewrite (has_elem_of l' w Hs'). f_equal.
  destruct (Z.eqb_spec w v) as [->|Hne].
  - rewrite orb_true_r. apply bool_decide_eq_true_2. rewrite Hp. left.
  - rewrite orb_false_r. apply bool_decide_ext. rewrite Hp.
    rewrite elem_of_cons. split; [by intros [?|?]|by right].
Qed.

Lemma add_each_sorted (data self : list Z) :
  ascending self → Forall u64 data →
  add_each self data = Ok (sorted (self ++ data)).
Proof.
  revert self. induction data as [|v data IH]; intros self Hs Hd; simpl.
  - rewrite app_nil_r. f_equal. by apply sorted_unique.
  - apply Forall_cons in Hd as [Hv Hd].
    destruct (add_ascending_Permutation self v Hs Hv) as (l' & -> & Hs' & Hp).
    cbn [mbind result_bind]. rewrite (IH l' Hs' Hd). f_equal.
    symmetry. apply sorted_unique; [apply sorted_ascending|].
    rewrite sorted_Permutation, Hp. by rewrite <- Permutation_middle.
Qed.

(** X3: adding the items of [data] one by one to an empty container
    gives the same container as the constructor with [is_sorted=False]. *)
Theorem X3_add_each_new (data : list Z) :
  Forall u64 data →
  add_each [] data = SnowflakeList.new data false.
Proof.
  intros Hd. rewrite add_each_sorted; [|solve_ascending|done]. simpl.
  symmetry. apply array_new_ok. by rewrite sorted_Permutation.
Qed.

Lemma forallb_is_Q_iff (l : list Z) : forallb is_Q l = true ↔ Forall u64 l.
Proof.
  rewrite forallb_forall, Forall_forall. split; intros H x Hx.
  - apply is_Q_u64, H. by apply list_elem_of_In.
  - apply is_Q_u64, H. by apply list_elem_of_In.
Qed.

(** X4: with either value of [is_sorted] the constructor raises
    [OverflowError] exactly when some item of [data] is outside the
    unsigned 64-bit range. *)
Theorem X4_new_overflow (data : list Z) (is_sorted : bool) :
  SnowflakeList.new data is_sorted = Raise OverflowError ↔
  ¬ Forall u64 data.
Proof.
  assert (Forall u64 (if is_sorted then data else sorted data) ↔
          Forall u64 data) as <-.
  { destruct is_sorted; [done|]. by rewrite sorted_Permutation. }
  unfold SnowflakeList.new, Array.new. rewrite <- forallb_is_Q_iff.
  destruct (forallb is_Q _); split; try congruence; done.
Qed.


(** X6: [add] keeps every stored item inside the unsigned 64-bit
    range. *)
Theorem X6_add_keeps_range (l l' : list Z) (v : Z) :
  Forall u64 l → SnowflakeList.add l v = Ok l' → Forall u64 l'.
Proof.
  intros Hl Hadd.
  destruct (bisect_left_bounds l v) as (i & Hi & _).
  unfold SnowflakeList.add in Hadd. rewrite Hi in Hadd.
  cbn [mbind result_bind] in Hadd. unfold Array.insert in Hadd.
  destruct (is_Q v) eqn:Hv; [|done]. injection Hadd as <-.
  rewrite inserted_Permutation. apply Forall_cons. split; [|done].
  by apply is_Q_u64.
Qed.

(** X7: on an ascending array [bisect_left(a, x)] is the number of items
    smaller than [x]. *)
Theorem X7_bisect_left_count (a : list Z) (x : Z) :
  ascending a →
  bisect_left a x = Ok (length (filter (λ y, y < x) a)).
Proof.
  intros Hs. destruct (bisect_left_bounds a x) as (i & Hi & Hlen).
  destruct (bisect_left_partition a x i Hs Hi) as [Hb Ha].
  rewrite Hi. f_equal. rewrite <- (take_drop i a) at 1.
  rewrite filter_app, length_app.
  rewrite filter_all by by apply below_Forall.
  rewrite filter_none by by apply above_Forall.
  rewrite length_take_le by done. simpl. lia.
Qed.

(** X8: two calls of [add] commute: adding [v] then [w] leaves the same
    container as adding [w] then [v]. *)
Theorem X8_add_commute (l : list Z) (v w : Z) :
  ascending l → u64 v → u64 w →
  (l1 ← SnowflakeList.add l v; SnowflakeList.add l1 w) =
  (l2 ← SnowflakeList.add l w; SnowflakeList.add l2 v).
Proof.
  intros Hs Hv Hw.
  destruct (add_ascending_Permutation l v Hs Hv) as (l1 & -> & Hs1 & Hp1).
  destruct (add_ascending_Permutation l w Hs Hw) as (l2 & -> & Hs2 & Hp2).
  cbn [mbind result_bind].
  destruct (add_ascending_Permutation l1 w Hs1 Hw) as (l3 & -> & Hs3 & Hp3).
  destruct (add_ascending_Permutation l2 v Hs2 Hv) as (l4 & -> & Hs4 & Hp4).
  f_equal. apply (Sorted_unique Z.le); [done..|].
  rewrite Hp3, Hp4, Hp1, Hp2. apply perm_swap.
Qed.

(** X9: a value outside the unsigned 64-bit range is never reported as
    stored: [has] answers [False] and [get] answers [None], without
    raising. *)
Theorem X9_lookup_out_of_range (l : list Z) (v : Z) :
  Forall u64 l → ¬ u64 v →
  SnowflakeList.has l v = Ok false ∧ SnowflakeList.get l v = Ok None.
Proof.
  intros Hl Hv. destruct (bisect_left_bounds l v) as (i & Hi & Hlen).
  rewrite (has_unfold l v i Hi Hlen), (get_unfold l v i Hi Hlen).
  rewrite bool_decide_eq_false_2; [done|]. intros Hi'.
  apply Hv. by apply (Forall_lookup_1 _ _ _ _ Hl Hi').
Qed.

(** ** [as_chunks] *)

Lemma chunk_loop_concat {T : Type} (it : list T) (m : Z) (ret : list T) (n : Z) :
  concat (Utils.chunk_loop it m ret n) = ret ++ it.
Proof.
  revert ret n. induction it as [|item it IH]; intros ret n; simpl.
  - destruct ret; simpl; by rewrite ?app_nil_r.
  - destruct (n + 1 =? m); simpl; rewrite IH; by rewrite <- app_assoc.
Qed.

(** What the loop yields: chunks of exactly [m] items, except that the
    last one may be shorter (but not empty). *)
Lemma chunk_loop_chunked {T : Type} (it : list T) (m : Z) (ret : list T) (n : Z) :
  n = Z.of_nat (length ret) → n < m →
  Forall (λ c, 0 < Z.of_nat (length c) ≤ m) (Utils.chunk_loop it m ret n) ∧
  ∀ i c, (S i < length (Utils.chunk_loop it m ret n))%nat →
         Utils.chunk_loop it m ret n !! i = Some c →
         Z.of_nat (length c) = m.
Proof.
  revert ret n. induction it as [|item it IH]; intros ret n Hn Hlt; simpl.
  - destruct ret as [|x ret]; [by split|]. split.
    + apply Forall_singleton. simpl in *. lia.
    + intros i c Hi. simpl in Hi. lia.
  - assert (Z.of_nat (length (ret ++ [item])) = n + 1) as Hlen.
    { rewrite length_app. simpl. lia. }
    destruct (Z.eqb_spec (n + 1) m) as [Heq|Hne].
    + destruct (IH [] 0) as [Hall Hfull]; [done|lia|]. split.
      * apply Forall_cons. split; [lia|done].
      * intros [|i] c Hi Hc; simpl in *; [injection Hc as <-; lia|].
        apply (Hfull i); [lia|done].
    + apply IH; [lia|lia].
Qed.

Lemma chunk_loop_length {T : Type} (it : list T) (m : Z) (ret : list T) (n : Z) :
  n = Z.of_nat (length ret) → n < m →
  Z.of_nat (length (Utils.chunk_loop it m ret n)) =
  (n + Z.of_nat (length it) + m - 1) / m.
Proof.
  revert ret n. induction it as [|item it IH]; intros ret n Hn Hlt.
  - cbn [Utils.chunk_loop length].
    destruct ret as [|x ret]; simpl in Hn |- *.
    + symmetry. apply Z.div_small. lia.
    + apply (Z.div_unique _ _ _ (n - 1)); lia.
  - cbn [Utils.chunk_loop].
    assert (Z.of_nat (length (ret ++ [item])) = n + 1) as Hlen.
    { rewrite length_app. simpl. lia. }
    destruct (Z.eqb_spec (n + 1) m) as [Heq|Hne].
    + cbn [length]. rewrite Nat2Z.inj_succ, (IH [] 0) by (simpl; lia).
      replace (n + Z.of_nat (S (length it)) + m - 1)
        with (0 + Z.of_nat (length it) + m - 1 + 1 * m) by lia.
      rewrite Z.div_add by lia. lia.
    + rewrite (IH (ret ++ [item]) (n + 1)) by lia. f_equal.
      cbn [length]. lia.
Qed.


(** X11: the chunks of [as_chunks], put end to end, are the items of
    the iterator, in order: none is lost, repeated or moved. *)
Theorem X11_as_chunks_concat {T : Type} (iterator : list T) (max_size : Z) :
  0 < max_size →
  ∃ cs, Utils.as_chunks iterator max_size = Return cs ∧ concat cs = iterator.
Proof.
  intros Hm. exists (Utils._chunk iterator max_size). split.
  - unfold Utils.as_chunks. by destruct (Z.leb_spec max_size 0); [lia|].
  - apply chunk_loop_concat.
Qed.

(** X12: every chunk of [as_chunks] holds between 1 and [max_size]
    items, and every chunk but the last holds exactly [max_size]. *)
Theorem X12_as_chunks_sizes {T : Type} (iterator : list T) (max_size : Z) :
  0 < max_size →
  ∃ cs, Utils.as_chunks iterator max_size = Return cs ∧
        Forall (λ c, 0 < Z.of_nat (length c) ≤ max_size) cs ∧
        ∀ i c, (S i < length cs)%nat → cs !! i = Some c →
               Z.of_nat (length c) = max_size.
Proof.
  intros Hm. exists (Utils._chunk iterator max_size). split.
  - unfold Utils.as_chunks. by destruct (Z.leb_spec max_size 0); [lia|].
  - by apply (chunk_loop_chunked iterator max_size [] 0).
Qed.

(** X13: [as_chunks] yields [len(iterator) / max_size] chunks, rounded
    up; in particular none for an empty iterator. *)
Theorem X13_as_chunks_count {T : Type} (iterator : list T) (max_size : Z) :
  0 < max_size →
  ∃ cs, Utils.as_chunks iterator max_size = Return cs ∧
        Z.of_nat (length cs) =
        (Z.of_nat (length iterator) + max_size - 1) / max_size.
Proof.
  intros Hm. exists (Utils._chunk iterator max_size). split.
  - unfold Utils.as_chunks. by destruct (Z.leb_spec max_size 0); [lia|].
  - unfold Utils._chunk. by rewrite (chunk_loop_length iterator max_size [] 0).
Qed.

(** ** [find] and [get] *)

(** X14: [find] returns the first element of the sequence that meets the
    predicate: every element before it fails the predicate. *)
Theorem X14_find_first {T : Type} (predicate : T → bool) (seq : list T) (x : T) :
  Utils.find predicate seq = Some x ↔
  ∃ l1 l2, seq = l1 ++ x :: l2 ∧ predicate x = true ∧
           Forall (λ y, predicate y = false) l1.
Proof.
  induction seq as [|e seq IH]; simpl.
  - split; [done|]. intros (l1 & l2 & Hl & _). by destruct l1.
  - destruct (predicate e) eqn:He.
    + split.
      * intros [= <-]. exists [], seq. by repeat split.
      * intros ([|y l1] & l2 & Hl & Hx & Hall); simplify_eq/=; [done|].
        apply Forall_cons in Hall as [Hy _]. congruence.
    + rewrite IH. split.
      * intros (l1 & l2 & -> & Hx & Hall). exists (e :: l1), l2.
        repeat split; [done|]. by apply Forall_cons.
      * intros ([|y l1] & l2 & Hl & Hx & Hall); simplify_eq/=; [congruence|].
        apply Forall_cons in Hall as [_ Hall]. by exists l1, l2.
Qed.

(** X15: [find] returns [None] exactly when no element of the sequence
    meets the predicate; in particular on an empty sequence. *)
Theorem X15_find_none {T : Type} (predicate : T → bool) (seq : list T) :
  Utils.find predicate seq = None ↔ Forall (λ y, predicate y = false) seq.
Proof.
  induction seq as [|e seq IH]; simpl; [by split|].
  rewrite Forall_cons. destruct (predicate e).
  - split; [done|]. by intros [? _].
  - rewrite IH. split; [done|]. by intros [_ ?].
Qed.

Section get_properties.
Context {T V : Type}.
Variable attrgetter : string → T → outcome V.
Variable py_eq : V → V → bool.

Lemma get_one_get_all (pred : T → outcome V) (v : V) (iterable : list T) :
  Utils.get_one py_eq pred v iterable = Utils.get_all py_eq [(pred, v)] iterable.
Proof.
  induction iterable as [|e iterable IH]; simpl; [done|].
  destruct (pred e) as [x|err]; simpl; [|done].
  by destruct (py_eq x v); simpl.
Qed.

Lemma get_general (iterable : list T) (attrs : list (string * V)) :
  Utils.get attrgetter py_eq iterable attrs =
  Utils.get_all py_eq
    (map (λ '(attr, value), (Utils.attrget attrgetter attr, value)) attrs)
    iterable.
Proof.
  destruct attrs as [|[k v] [|kv attrs]]; try done.
  apply get_one_get_all.
Qed.

(** X16: the single-attribute shortcut of [get] returns, or raises,
    exactly what the general loop does on the same arguments. *)
Theorem X16_get_single_general (iterable : list T) (k : string) (v : V) :
  Utils.get attrgetter py_eq iterable [(k, v)] =
  Utils.get_all py_eq [(Utils.attrget attrgetter k, v)] iterable.
Proof. apply (get_general iterable [(k, v)]). Qed.

(** X17: called without any attribute, [get] returns the first element
    of the iterable, and [None] when the iterable is empty. *)
Theorem X17_get_no_attrs (iterable : list T) :
  Utils.get attrgetter py_eq iterable [] = Return (head iterable).
Proof. by destruct iterable. Qed.

Lemma all_equal_has_attrs (attrs : list (string * V)) (elem : T) :
  (∀ k v, (k, v) ∈ attrs →
          ∃ x, Utils.attrget attrgetter k elem = Return x) →
  Utils.all_equal py_eq
    (map (λ '(attr, value), (Utils.attrget attrgetter attr, value)) attrs)
    elem = Return (Utils.has_attrs attrgetter py_eq attrs elem).
Proof.
  induction attrs as [|[k v] attrs IH]; intros Hattr; simpl; [done|].
  destruct (Hattr k v) as [x Hx]; [left|]. rewrite Hx. simpl.
  destruct (py_eq x v); [|done]. apply IH.
  intros k' v' Hin. apply (Hattr k' v'). by right.
Qed.

(** X18: when every element has the attributes named, [get] returns the
    first element whose attributes all equal the values asked for, and
    [None] when there is none. *)
Theorem X18_get_first_match (iterable : list T) (attrs : list (string * V)) :
  (∀ elem k v, elem ∈ iterable → (k, v) ∈ attrs →
               ∃ x, Utils.attrget attrgetter k elem = Return x) →
  Utils.get attrgetter py_eq iterable attrs =
  Return (Utils.find (Utils.has_attrs attrgetter py_eq attrs) iterable).
Proof.
  rewrite get_general.
  induction iterable as [|e iterable IH]; intros Hattr; simpl; [done|].
  rewrite all_equal_has_attrs by (intros k v; apply Hattr; left).
  simpl. destruct (Utils.has_attrs attrgetter py_eq attrs e); [done|]. apply IH.
  intros elem k v Hin. apply Hattr. by right.
Qed.
End get_properties.

(** ** [_unique] *)

Lemma dict_setitem_keys {K V : Type} `{EqDecision K} (d : list (K * V)) (k : K) (v : V) :
  map fst (Utils.dict_setitem d k v) =
  if decide (k ∈ map fst d) then map fst d else map fst d ++ [k].
Proof.
  induction d as [|[k' v'] d IH]; simpl; [done|].
  destruct (decide (k' = k)) as [->|Hne]; simpl.
  - by rewrite decide_True by left.
  - rewrite IH. destruct (decide (k ∈ map fst d)) as [Hin|Hnin].
    + by rewrite decide_True by by right.
    + rewrite decide_False; [done|].
      intros [?|?]%elem_of_cons; [congruence|done].
Qed.

Lemma fromkeys_keys {K : Type} `{EqDecision K} (l : list K) (d : list (K * unit)) :
  map fst (foldl (λ d k, Utils.dict_setitem d k tt) d l) =
  map fst d ++ filter (λ y, y ∉ map fst d) (Utils._unique l).
Proof.
  revert d. induction l as [|x l IH]; intros d.
  - simpl. by rewrite app_nil_r.
  - unfold Utils._unique, Utils.dict_fromkeys.
    cbn [foldl Utils.dict_setitem]. rewrite !IH, dict_setitem_keys.
    cbn [map fst app]. rewrite filter_cons.
    destruct (decide (x ∈ map fst d)) as [Hin|Hnin].
    + rewrite decide_False by (intros Hx; by apply Hx).
      f_equal. rewrite list_filter_filter_l; [done|].
      intros y Hy ->%list_elem_of_singleton. done.
    + rewrite decide_True by done. rewrite <- app_assoc. simpl.
      do 2 f_equal. rewrite list_filter_filter. apply list_filter_iff.
      intros y. rewrite elem_of_app, list_elem_of_singleton. tauto.
Qed.

Lemma unique_cons {K : Type} `{EqDecision K} (x : K) (l : list K) :
  Utils._unique (x :: l) = x :: filter (λ y, y ≠ x) (Utils._unique l).
Proof.
  unfold Utils._unique at 1. unfold Utils.dict_fromkeys.
  cbn [foldl Utils.dict_setitem]. rewrite fromkeys_keys.
  cbn [map fst app]. f_equal. apply list_filter_iff.
  intros y. by rewrite list_elem_of_singleton.
Qed.

(** X19: [_unique] keeps the first occurrence of every item, in the
    order of the input: the first item stays first and its later
    occurrences are dropped from what [_unique] makes of the rest. *)
Theorem X19_unique_first_occurrence {K : Type} `{EqDecision K} (x : K) (l : list K) :
  Utils._unique (x :: l) = x :: filter (λ y, y ≠ x) (Utils._unique l).
Proof. apply unique_cons. Qed.

(** X20: the result of [_unique] has no repeated item and holds exactly
    the items of the input. *)
Theorem X20_unique_NoDup {K : Type} `{EqDecision K} (l : list K) :
  NoDup (Utils._unique l) ∧ ∀ x, x ∈ Utils._unique l ↔ x ∈ l.
Proof.
  induction l as [|x l [IHn IHe]]; [split; [constructor|done]|].
  rewrite unique_cons. split.
  - apply NoDup_cons. split; [|by apply NoDup_filter].
    rewrite list_elem_of_filter. by intros [? _].
  - intros y. rewrite !elem_of_cons, list_elem_of_filter, IHe.
    destruct (decide (y = x)); tauto.
Qed.

(** X21: [_unique] returns a list without repeated items unchanged. *)
Theorem X21_unique_NoDup_id {K : Type} `{EqDecision K} (l : list K) :
  NoDup l → Utils._unique l = l.
Proof.
  induction 1 as [|x l Hx _ IH]; [done|].
  rewrite unique_cons, IH. f_equal. apply filter_all.
  apply Forall_forall. intros y Hy ->. done.
Qed.

(** ** [valid_icon_size] *)

Lemma valid_icon_size_range :
  forallb (λ n, bool_decide (Utils.valid_icon_size (Z.of_nat n) =
                             bool_decide (Z.of_nat n ∈ Utils.icon_sizes)))
          (seq 0 4097) = true.
Proof. vm_compute. reflexivity. Qed.

(** X22: [valid_icon_size] accepts exactly the powers of two from 16 to
    4096. *)
Theorem X22_valid_icon_size (size : Z) :
  Utils.valid_icon_size size = true ↔ ∃ k, 4 ≤ k ≤ 12 ∧ size = 2 ^ k.
Proof.
  assert (size ∈ Utils.icon_sizes ↔ ∃ k, 4 ≤ k ≤ 12 ∧ size = 2 ^ k) as <-.
  { unfold Utils.icon_sizes. rewrite !elem_of_cons, elem_of_nil. split.
    - intros H.
      repeat (destruct H as [->|H];
              [match goal with
               | |- ∃ k, _ ∧ ?s = _ => exists (Z.log2 s)
               end; split; [vm_compute; split; intros [=]|reflexivity]|]).
      done.
    - intros (k & Hk & ->).
      assert (k = 4 ∨ k = 5 ∨ k = 6 ∨ k = 7 ∨ k = 8 ∨ k = 9 ∨ k = 10 ∨
              k = 11 ∨ k = 12) as Hc by lia.
      repeat (destruct Hc as [->|Hc]; [vm_compute; tauto|]).
      subst. vm_compute. tauto. }
  destruct (decide (0 ≤ size ≤ 4096)) as [Hr|Hr].
  - pose proof valid_icon_size_range as Hall.
    rewrite forallb_forall in Hall.
    specialize (Hall (Z.to_nat size) ltac:(apply in_seq; lia)).
    rewrite Z2Nat.id in Hall by lia. apply bool_decide_eq_true in Hall.
    rewrite Hall. apply bool_decide_eq_true.
  - split.
    + unfold Utils.valid_icon_size.
      rewrite !andb_true_iff, Z.leb_le, Z.leb_le. lia.
    + unfold Utils.icon_sizes. rewrite !elem_of_cons, elem_of_nil.
      intros H. exfalso. apply Hr.
      repeat (destruct H as [->|H]; [lia|]). done.
Qed.

(** ** Snowflakes and time *)

(** X23: the time read back from a snowflake made by [time_snowflake] is
    the millisecond it was made from, with [high] set or not. *)
Theorem X23_snowflake_time_roundtrip (discord_millis : Z) (high : bool) :
  Utils.snowflake_millis (Utils.time_snowflake discord_millis high) =
  discord_millis + DISCORD_EPOCH.
Proof.
  unfold Utils.snowflake_millis, Utils.time_snowflake.
  rewrite Z.shiftl_mul_pow2, Z.shiftr_div_pow2 by lia.
  change (2 ^ 22) with 4194304.
  destruct high; Z.div_mod_to_equations; lia.
Qed.

(** X24: the snowflakes whose time is a given millisecond are exactly
    those from [time_snowflake(high=False)] to [time_snowflake(high=True)]
    of that millisecond, both included. *)
Theorem X24_snowflake_time_range (id discord_millis : Z) :
  Utils.snowflake_millis id = discord_millis + DISCORD_EPOCH ↔
  Utils.time_snowflake discord_millis false ≤ id
    ≤ Utils.time_snowflake discord_millis true.
Proof.
  unfold Utils.snowflake_millis, Utils.time_snowflake.
  rewrite Z.shiftl_mul_pow2, Z.shiftr_div_pow2 by lia.
  change (2 ^ 22) with 4194304. Z.div_mod_to_equations. lia.
Qed.

(** X25: the snowflake of [generate_snowflake] is the one of
    [time_snowflake] with [high=True] for the same millisecond, also
    before the Discord epoch. *)
Theorem X25_generate_snowflake_high (discord_millis : Z) :
  Utils.generate_snowflake discord_millis =
  Utils.time_snowflake discord_millis true.
Proof.
  unfold Utils.generate_snowflake, Utils.time_snowflake.
  symmetry. apply Z.add_nocarry_lor.
  change (Z.land (Z.shiftl discord_millis 22) (Z.ones 22) = 0).
  rewrite Z.land_ones by lia.
  rewrite Z.shiftl_mul_pow2 by lia. apply Z.mod_mul. lia.
Qed.

(** ** [_get_mime_type_for_image] *)

Lemma startswith_take (data prefix : list byte) (n : nat) :
  (length prefix ≤ n)%nat →
  Utils.startswith (take n data) prefix = Utils.startswith data prefix.
Proof.
  intros Hn. unfold Utils.startswith. rewrite take_take.
  by rewrite Nat.min_l by done.
Qed.

Lemma slice_take (data : list byte) (i j n : nat) :
  (j ≤ n)%nat → Utils.slice (take n data) i j = Utils.slice data i j.
Proof.
  intros Hn. unfold Utils.slice. rewrite skipn_firstn_comm, take_take.
  by rewrite Nat.min_l by lia.
Qed.

(** X26: the type is decided by the first 12 bytes alone. *)
Theorem X26_mime_first_bytes (data : list byte) :
  Utils._get_mime_type_for_image data =
  Utils._get_mime_type_for_image (take 12 data).
Proof.
  unfold Utils._get_mime_type_for_image.
  rewrite !startswith_take by (simpl; lia).
  by rewrite !slice_take by lia.
Qed.

(** X27: data of fewer than three bytes, the empty data included, is
    refused with [InvalidArgument]. *)
Theorem X27_mime_short (data : list byte) :
  (length data < 3)%nat →
  Utils._get_mime_type_for_image data = Throw InvalidArgument.
Proof.
  intros Hlen.
  destruct data as [|b0 [|b1 [|b2 data]]]; simpl in Hlen; try lia;
    unfold Utils._get_mime_type_for_image, Utils.startswith, Utils.slice;
    simpl; repeat (rewrite bool_decide_eq_false_2 by discriminate); done.
Qed.

(** X28: the answer is "image/webp" exactly for data that starts with
    RIFF and has WEBP at bytes 8 to 11: no earlier test of the cascade
    takes such data away. *)
Theorem X28_mime_webp (data : list byte) :
  Utils._get_mime_type_for_image data = Return "image/webp" ↔
  Utils.startswith data Utils.RIFF = true ∧ Utils.slice data 8 12 = Utils.WEBP.
Proof.
  split.
  - unfold Utils._get_mime_type_for_image.
    destruct (Utils.startswith data Utils.PNG); [done|].
    destruct (_ || _); [done|]. destruct (_ || _); [done|].
    destruct (Utils.startswith data Utils.RIFF); [|done].
    destruct (decide (Utils.slice data 8 12 = Utils.WEBP)) as [Hw|Hw]; [done|].
    by rewrite bool_decide_eq_false_2 by done.
  - intros [Hr%bool_decide_eq_true Hw].
    do 12 (destruct data as [|? data]; [done|]).
    unfold Utils.slice in Hw. simpl in Hr, Hw.
    injection Hr as -> -> -> ->. injection Hw as -> -> -> ->.
    unfold Utils._get_mime_type_for_image, Utils.startswith, Utils.slice.
    simpl. by repeat (rewrite bool_decide_eq_false_2 by discriminate).
Qed.

(** ** [filter_params] *)

Lemma filter_param_untouched {V : Type} (params : gmap string V)
    (old : string) (new : option string) (k : string) :
  old ≠ k → new ≠ Some k →
  Utils.filter_param params (old, new) !! k = params !! k.
Proof.
  intros Hold Hnew. unfold Utils.filter_param.
  destruct (params !! old) as [v|]; [|done].
  destruct new as [new|].
  - rewrite lookup_insert_ne by congruence. by rewrite lookup_delete_ne.
  - by rewrite lookup_delete_ne.
Qed.

(** X29: a key that [kwargs] names neither as a parameter to move nor as
    a target keeps its entry, or its absence, in the result. *)
Theorem X29_filter_params_untouched {V : Type} (params : gmap string V)
    (kwargs : list (string * option string)) (k : string) :
  Forall (λ kw, kw.1 ≠ k ∧ kw.2 ≠ Some k) kwargs →
  Utils.filter_params params kwargs !! k = params !! k.
Proof.
  intros Hk. revert params.
  induction Hk as [|[old new] kwargs [Hold Hnew] _ IH]; intros params;
    [done|].
  unfold Utils.filter_params. cbn [foldl].
  change (Utils.filter_params (Utils.filter_param params (old, new)) kwargs
            !! k = params !! k).
  rewrite IH. by apply filter_param_untouched.
Qed.

Lemma filter_param_size {V : Type} (params : gmap string V)
    (kw : string * option string) :
  (size (Utils.filter_param params kw) ≤ size params)%nat.
Proof.
  destruct kw as [old new]. unfold Utils.filter_param.
  destruct (params !! old) as [v|] eqn:Hold; [|done].
  assert (size params = S (size (delete old params))) as ->.
  { rewrite <- (insert_delete_id params old v Hold) at 1.
    by rewrite map_size_insert_None by apply lookup_delete_eq. }
  destruct new as [new|]; [|lia].
  rewrite map_size_insert. destruct (delete old params !! new); simpl; lia.
Qed.

Lemma filter_params_size {V : Type} (params : gmap string V)
    (kwargs : list (string * option string)) :
  (size (Utils.filter_params params kwargs) ≤ size params)%nat.
Proof.
  revert params. induction kwargs as [|kw kwargs IH]; intros params; [done|].
  unfold Utils.filter_params. cbn [foldl].
  etrans; [apply IH|apply filter_param_size].
Qed.

Lemma filter_param_absent {V : Type} (params : gmap string V)
    (old : string) (new : option string) (k : string) :
  new ≠ Some k → (old = k ∨ params !! k = None) →
  Utils.filter_param params (old, new) !! k = None.
Proof.
  intros Hnew Hk. unfold Utils.filter_param.
  destruct (params !! old) as [v|] eqn:Hold.
  - destruct new as [new|].
    + rewrite lookup_insert_ne by congruence. rewrite lookup_delete.
      case_decide; [done|]. by destruct Hk.
    + rewrite lookup_delete. case_decide; [done|]. by destruct Hk.
  - destruct Hk as [<-|Hk]; done.
Qed.

Lemma filter_params_absent {V : Type} (params : gmap string V)
    (kwargs : list (string * option string)) (k : string) :
  params !! k = None → Forall (λ kw, kw.2 ≠ Some k) kwargs →
  Utils.filter_params params kwargs !! k = None.
Proof.
  intros Hk Hall. revert params Hk.
  induction Hall as [|[old new] kwargs Hnew _ IH]; intros params Hk; [done|].
  unfold Utils.filter_params. cbn [foldl]. apply IH.
  apply filter_param_absent; [done|by right].
Qed.

(** X30: a parameter that [kwargs] asks to move or remove, and that is
    the target of no move, is absent from the result. *)
Theorem X30_filter_params_gone {V : Type} (params : gmap string V)
    (kwargs : list (string * option string)) (k : string) :
  k ∈ kwargs.*1 → Forall (λ kw, kw.2 ≠ Some k) kwargs →
  Utils.filter_params params kwargs !! k = None.
Proof.
  intros Hin Hall. revert params Hin.
  induction Hall as [|[old new] kwargs Hnew Hall IH]; intros params Hin.
  { by apply elem_of_nil in Hin. }
  unfold Utils.filter_params. cbn [foldl].
  destruct (decide (old = k)) as [->|Hne].
  - apply filter_params_absent; [|done].
    apply filter_param_absent; [done|by left].
  - apply IH. simpl in Hin.
    apply elem_of_cons in Hin as [?|?]; [congruence|done].
Qed.

(** ** The further properties at concrete inputs *)

Lemma X1_get_stored_witness :
  ascending [1; 3; 5] ∧
  SnowflakeList.get [1; 3; 5] 3 =
  Ok (if bool_decide (3 ∈ [1; 3; 5]) then Some 3 else None).
Proof. split; [solve_ascending|apply (X1_get_stored [1; 3; 5] 3); solve_ascending]. Defined.

Lemma X2_has_after_add_other_witness :
  ascending [1; 3; 5] ∧ u64 4 ∧
  ∃ l' b, SnowflakeList.add [1; 3; 5] 4 = Ok l' ∧
          SnowflakeList.has [1; 3; 5] 5 = Ok b ∧
          SnowflakeList.has l' 5 = Ok (b || (5 =? 4)).
Proof.
  split; [solve_ascending|]. split; [solve_u64|].
  apply (X2_has_after_add_other [1; 3; 5] 4 5); [solve_ascending|solve_u64].
Defined.

Lemma X3_add_each_new_witness :
  Forall u64 [5; 1; 3; 1] ∧
  add_each [] [5; 1; 3; 1] = SnowflakeList.new [5; 1; 3; 1] false.
Proof. split; [solve_all_u64|apply (X3_add_each_new [5; 1; 3; 1]); solve_all_u64]. Defined.

Lemma X6_add_keeps_range_witness :
  Forall u64 [1; 3] ∧ SnowflakeList.add [1; 3] 2 = Ok [1; 2; 3] ∧
  Forall u64 [1; 2; 3].
Proof.
  split; [solve_all_u64|]. split; [reflexivity|].
  apply (X6_add_keeps_range [1; 3] [1; 2; 3] 2); [solve_all_u64|reflexivity].
Defined.

Lemma X7_bisect_left_count_witness :
  ascending [1; 3; 3; 5] ∧
  bisect_left [1; 3; 3; 5] 4 = Ok (length (filter (λ y, y < 4) [1; 3; 3; 5])).
Proof.
  split; [solve_ascending|].
  apply (X7_bisect_left_count [1; 3; 3; 5] 4); solve_ascending.
Defined.

Lemma X8_add_commute_witness :
  ascending [1; 5] ∧ u64 7 ∧ u64 3 ∧
  (l1 ← SnowflakeList.add [1; 5] 7; SnowflakeList.add l1 3) =
  (l2 ← SnowflakeList.add [1; 5] 3; SnowflakeList.add l2 7).
Proof.
  split; [solve_ascending|]. split; [solve_u64|]. split; [solve_u64|].
  apply (X8_add_commute [1; 5] 7 3); [solve_ascending|solve_u64..].
Defined.

Lemma X9_lookup_out_of_range_witness :
  Forall u64 [1; 3] ∧ ¬ u64 (-1) ∧
  SnowflakeList.has [1; 3] (-1) = Ok false ∧
  SnowflakeList.get [1; 3] (-1) = Ok None.
Proof.
  assert (¬ u64 (-1)) as Hv by solve_u64.
  split; [solve_all_u64|]. split; [exact Hv|].
  apply (X9_lookup_out_of_range [1; 3] (-1)); [solve_all_u64|exact Hv].
Defined.

Lemma X11_as_chunks_concat_witness :
  0 < 2 ∧
  ∃ cs, Utils.as_chunks [1; 2; 3; 4; 5] 2 = Return cs ∧
        concat cs = [1; 2; 3; 4; 5].
Proof. split; [lia|apply (X11_as_chunks_concat [1; 2; 3; 4; 5] 2); lia]. Defined.

Lemma X12_as_chunks_sizes_witness :
  0 < 2 ∧
  ∃ cs, Utils.as_chunks [1; 2; 3; 4; 5] 2 = Return cs ∧
        Forall (λ c, 0 < Z.of_nat (length c) ≤ 2) cs ∧
        ∀ i c, (S i < length cs)%nat → cs !! i = Some c →
               Z.of_nat (length c) = 2.
Proof. split; [lia|apply (X12_as_chunks_sizes [1; 2; 3; 4; 5] 2); lia]. Defined.

Lemma X13_as_chunks_count_witness :
  0 < 2 ∧
  ∃ cs, Utils.as_chunks [1; 2; 3; 4; 5] 2 = Return cs ∧
        Z.of_nat (length cs) = (Z.of_nat (length [1; 2; 3; 4; 5]) + 2 - 1) / 2.
Proof. split; [lia|apply (X13_as_chunks_count [1; 2; 3; 4; 5] 2); lia]. Defined.

Lemma example_attrs_present (elem : Z * Z) (k : string) (v : Z) :
  (k, v) ∈ [("id"%string, 2); ("guild__id"%string, 7)] →
  ∃ x, Utils.attrget example_attrgetter k elem = Return x.
Proof.
  intros [[= -> ->]|[[= -> ->]|[]%elem_of_nil]%elem_of_cons]%elem_of_cons;
    eexists; reflexivity.
Qed.

Lemma X18_get_first_match_witness :
  (∀ elem k v, elem ∈ [(1, 7); (2, 8); (2, 7); (2, 7)] →
               (k, v) ∈ [("id"%string, 2); ("guild__id"%string, 7)] →
               ∃ x, Utils.attrget example_attrgetter k elem = Return x) ∧
  Utils.get example_attrgetter Z.eqb [(1, 7); (2, 8); (2, 7); (2, 7)]
    [("id"%string, 2); ("guild__id"%string, 7)] =
  Return (Utils.find
            (Utils.has_attrs example_attrgetter Z.eqb
               [("id"%string, 2); ("guild__id"%string, 7)])
            [(1, 7); (2, 8); (2, 7); (2, 7)]).
Proof.
  assert (∀ elem k v, elem ∈ [(1, 7); (2, 8); (2, 7); (2, 7)] →
            (k, v) ∈ [("id"%string, 2); ("guild__id"%string, 7)] →
            ∃ x, Utils.attrget example_attrgetter k elem = Return x) as Hattr.
  { intros elem k v _. apply example_attrs_present. }
  split; [exact Hattr|].
  apply (X18_get_first_match example_attrgetter Z.eqb _ _ Hattr).
Defined.

Lemma X21_unique_NoDup_id_witness :
  NoDup [3; 1; 2] ∧ Utils._unique [3; 1; 2] = [3; 1; 2].
Proof.
  assert (NoDup [3; 1; 2]) as Hn.
  { refine (bool_decide_unpack (NoDup [3; 1; 2]) _). vm_compute. exact I. }
  split; [exact Hn|apply (X21_unique_NoDup_id [3; 1; 2] Hn)].
Defined.

Lemma X27_mime_short_witness :
  (length [xff; xd8] < 3)%nat ∧
  Utils._get_mime_type_for_image [xff; xd8] = Throw InvalidArgument.
Proof. split; [simpl; lia|apply (X27_mime_short [xff; xd8]); simpl; lia]. Defined.

Lemma X29_filter_params_untouched_witness :
  Forall (λ kw : string * option string, kw.1 ≠ "param4" ∧ kw.2 ≠ Some "param4")
    [("param1", Some "param3"); ("param2", None)] ∧
  Utils.filter_params
    ({[ "param1" := 12; "param2" := 13; "param4" := 14 ]} : gmap string Z)
    [("param1", Some "param3"); ("param2", None)] !! "param4" =
  ({[ "param1" := 12; "param2" := 13; "param4" := 14 ]} : gmap string Z)
    !! "param4".
Proof.
  assert (Forall (λ kw : string * option string,
                    kw.1 ≠ "param4" ∧ kw.2 ≠ Some "param4")
            [("param1", Some "param3"); ("param2", None)]) as Hk.
  { repeat (apply Forall_cons_2; [split; discriminate|]). apply Forall_nil_2. }
  split; [exact Hk|]. apply X29_filter_params_untouched, Hk.
Defined.

Lemma X30_filter_params_gone_witness :
  "param1" ∈ [("param1", Some "param3"); ("param2", None)].*1 ∧
  Forall (λ kw : string * option string, kw.2 ≠ Some "param1")
    [("param1", Some "param3"); ("param2", None)] ∧
  Utils.filter_params ({[ "param1" := 12; "param2" := 13 ]} : gmap string Z)
    [("param1", Some "param3"); ("param2", None)] !! "param1" = None.
Proof.
  assert ("param1" ∈ [("param1", Some "param3"); ("param2", None)].*1) as Hin
    by (simpl; apply list_elem_of_here).
  assert (Forall (λ kw : string * option string, kw.2 ≠ Some "param1")
            [("param1", Some "param3"); ("param2", None)]) as Hk.
  { repeat (apply Forall_cons_2; [discriminate|]). apply Forall_nil_2. }
  split; [exact Hin|]. split; [exact Hk|].
  apply X30_filter_params_gone; [exact Hin|exact Hk].
Defined.
